(** * simple_log_factory: a model of [log_factory.py] and its specification

    The module is a thin layer over Python's [logging] package.  The
    development has two parts:

    - [Logging]: the part of the [logging] package that the module calls
      (the handler and formatter objects, the registry of named loggers,
      [getLogger], [setLevel], [setFormatter], [addHandler] and the five
      logging methods), as a store with explicit object identities;
    - [LogFactory]: the functions of [log_factory.py], written in a state
      and exception monad over that store, followed by the properties of
      the specification.

    Python strings are modelled by [string]; a character stands for a code
    point below 256. *)

From Stdlib Require Import ZArith Ascii String.
From stdpp Require Import base option list strings gmap.

Set Warnings "-clear-no-such-hyp".

Local Open Scope string_scope.
Local Open Scope list_scope.
Local Open Scope nat_scope.

(* ===================================================================== *)
(** ** Python values and string helpers *)
(* ===================================================================== *)

Module Py.

(** The values a caller may pass where the module inspects the dynamic
    type of its argument ([isinstance(log_name, str)]) or merely forwards
    it (the values of a context mapping). *)
Inductive Value : Type :=
| VNone
| VBool (b : bool)
| VInt (n : Z)
| VStr (s : string).

#[global] Instance Value_eq_dec : EqDecision Value.
Proof. solve_decision. Defined.

(** [isinstance(v, str)], returning the string when it is one. *)
Definition as_str (v : Value) : option string :=
  match v with
  | VStr s => Some s
  | _ => None
  end.

(** [str.isspace] on one character, for code points below 256. *)
Definition is_space (c : ascii) : bool :=
  let n := nat_of_ascii c in
  ((9 <=? n)%nat && (n <=? 13)%nat)
  || ((28 <=? n)%nat && (n <=? 32)%nat)
  || (n =? 133)%nat || (n =? 160)%nat.

Fixpoint lstrip (s : string) : string :=
  match s with
  | EmptyString => EmptyString
  | String c r => if is_space c then lstrip r else s
  end.

Fixpoint rstrip (s : string) : string :=
  match s with
  | EmptyString => EmptyString
  | String c r =>
      match rstrip r with
      | EmptyString => if is_space c then EmptyString else String c EmptyString
      | r' => String c r'
      end
  end.

(** [s.strip()] *)
Definition strip (s : string) : string := rstrip (lstrip s).

Definition upper_char (c : ascii) : ascii :=
  let n := nat_of_ascii c in
  if ((97 <=? n)%nat && (n <=? 122)%nat) then ascii_of_nat (n - 32) else c.

(** [s.upper()] on the letters a-z.  The module only feeds the result to
    the table of level names, all of which are made of the letters A-Z;
    no character outside a-z is upper-cased by Python to a string that
    occurs in one of those names, hence the lookup below agrees with
    Python's on every string. *)
Fixpoint upper (s : string) : string :=
  match s with
  | EmptyString => EmptyString
  | String c r => String (upper_char c) (upper r)
  end.

(** Truthiness of an [Optional[str]]: [None] and [""] are false. *)
Definition truthy_str (o : option string) : bool :=
  match o with
  | Some (String _ _) => true
  | _ => false
  end.

End Py.

(* ===================================================================== *)
(** ** The logging package, as far as the module uses it *)
(* ===================================================================== *)

Module Logging.

(** Exceptions.  Both the module and [logging] raise [ValueError]; they
    differ in the message. *)
Inductive Exn : Type :=
| ValueError (msg : string).

#[global] Instance Exn_eq_dec : EqDecision Exn.
Proof. solve_decision. Defined.

(** The concrete class of a handler object, [type(h)]. *)
Inductive HandlerClass : Type :=
| StreamHandler
| FileHandler
| TimedRotatingFileHandler
| UserHandler (cls : string).

#[global] Instance HandlerClass_eq_dec : EqDecision HandlerClass.
Proof. solve_decision. Defined.

(** A formatter: [_fmt] and [datefmt]. *)
Record Formatter : Type := mkFormatter {
  _fmt : string;
  datefmt : option string
}.

#[global] Instance Formatter_eq_dec : EqDecision Formatter.
Proof. solve_decision. Defined.

(** A handler object.  [formatter] is the identity of a formatter object
    (its address in the store), [None] until [setFormatter] is called. *)
Record Handler : Type := mkHandler {
  hclass : HandlerClass;
  baseFilename : option string;
  when : option string;
  formatter : option nat;
  hlevel : Z
}.

#[global] Instance Handler_eq_dec : EqDecision Handler.
Proof. solve_decision. Defined.

(** A logger object: its threshold and its own list of handlers (object
    identities).  [Logger.__init__] gives every logger a list of its
    own, and the module only ever rebinds [handlers] to a fresh list, so
    the list is stored in the logger. *)
Record Logger : Type := mkLogger {
  level : Z;
  handlers : list nat
}.

#[global] Instance Logger_eq_dec : EqDecision Logger.
Proof. solve_decision. Defined.

(** A reference to a logger: the root logger or a logger of
    [Logger.manager.loggerDict], by name. *)
Inductive LoggerRef : Type :=
| Root
| Named (name : string).

#[global] Instance LoggerRef_eq_dec : EqDecision LoggerRef.
Proof. solve_decision. Defined.


(** The five logging methods the module calls. *)
Inductive Method : Type :=
| Exception | Error | Warning | Info | Debug.

#[global] Instance Method_eq_dec : EqDecision Method.
Proof. solve_decision. Defined.

Definition CRITICAL : Z := 50.
Definition ERROR : Z := 40.
Definition WARNING : Z := 30.
Definition INFO : Z := 20.
Definition DEBUG : Z := 10.
Definition NOTSET : Z := 0.


(** One call of a logging method, as it reaches the logger. *)
Record LogCall : Type := mkLogCall {
  call_logger : LoggerRef;
  call_method : Method;
  call_msg : string;
  call_extra : gmap string Py.Value
}.

(** The store. Handler and formatter objects are addressed by their
    position in [handler_objs] and [formatter_objs]: a new object is
    appended, so its address is fresh by construction. *)
Record World : Type := mkWorld {
  handler_objs : list Handler;
  formatter_objs : list Formatter;
  root : Logger;
  loggerDict : gmap string Logger;
  calls : list LogCall
}.

(** The state of the package after import: a root logger at WARNING. *)
Definition initial : World :=
  {| handler_objs := [];
     formatter_objs := [];
     root := {| level := WARNING; handlers := [] |};
     loggerDict := ∅;
     calls := [] |}.

Inductive Outcome (A : Type) : Type :=
| Return (a : A)
| Raise (e : Exn).
Arguments Return {A} a.
Arguments Raise {A} e.

(** Computations over the store that may raise. *)
Definition M (A : Type) : Type := World → Outcome A * World.

#[global] Instance M_ret : MRet M := λ A a w, (Return a, w).
#[global] Instance M_bind : MBind M := λ A B f c w,
  match c w with
  | (Return a, w') => f a w'
  | (Raise e, w') => (Raise e, w')
  end.

Definition raise {A} (e : Exn) : M A := λ w, (Raise e, w).
Definition get {A} (f : World → A) : M A := λ w, (Return (f w), w).
Definition modify (f : World → World) : M () := λ w, (Return (), f w).

(** *** Loggers *)

Definition registered (w : World) (l : LoggerRef) : Prop :=
  match l with
  | Root => True
  | Named n => is_Some (loggerDict w !! n)
  end.

#[global] Instance registered_dec w l : Decision (registered w l).
Proof. destruct l; simpl; apply _. Defined.

Definition lookup_logger (w : World) (l : LoggerRef) : option Logger :=
  match l with
  | Root => Some (root w)
  | Named n => loggerDict w !! n
  end.

(** [l.handlers]; a reference to no logger reads as the empty list. *)
Definition handlers_of (w : World) (l : LoggerRef) : list nat :=
  from_option handlers [] (lookup_logger w l).

Definition level_of (w : World) (l : LoggerRef) : Z :=
  from_option level NOTSET (lookup_logger w l).

(** In-place update of one logger object. *)
Definition update_logger (l : LoggerRef) (f : Logger → Logger) (w : World) : World :=
  match l with
  | Root =>
      {| handler_objs := handler_objs w; formatter_objs := formatter_objs w;
         root := f (root w); loggerDict := loggerDict w; calls := calls w |}
  | Named n =>
      {| handler_objs := handler_objs w; formatter_objs := formatter_objs w;
         root := root w; loggerDict := alter f n (loggerDict w); calls := calls w |}
  end.

(** [name.rfind(".", 0, stop)]-driven walk of [Manager._fixupParents]:
    the nearest registered logger among the dotted prefixes [name[:i]],
    [i > 0], the root logger when there is none.  After a dot at [i] the
    search resumes below [i - 1], as [rfind(".", 0, i - 1)] does. *)
Fixpoint nearest_ancestor (d : gmap string Logger) (name : string) (stop : nat)
  : LoggerRef :=
  match stop with
  | O => Root
  | S i =>
      if bool_decide (String.get i name = Some "."%char) then
        match i with
        | O => Root
        | S k =>
            let substr := String.substring 0 i name in
            if bool_decide (is_Some (d !! substr)) then Named substr
            else nearest_ancestor d name k
        end
      else nearest_ancestor d name i
  end.

(** [l.parent]: [None] for the root logger only. *)
Definition parent (w : World) (l : LoggerRef) : option LoggerRef :=
  match l with
  | Root => None
  | Named n => Some (nearest_ancestor (loggerDict w) n (String.length n))
  end.

(** [logging.getLogger(name)]: the root logger for an empty name or the
    root's own name (CPython 3.9 and later), else the logger registered
    under [name], created with level NOTSET and no handlers on first use.
    Parents are not stored: [parent] recomputes what [_fixupParents] and
    [_fixupChildren] maintain. *)
Definition getLogger (name : string) : M LoggerRef := λ w,
  if bool_decide (name = "" ∨ name = "root") then (Return Root, w)
  else
    match loggerDict w !! name with
    | Some _ => (Return (Named name), w)
    | None =>
        (Return (Named name),
         {| handler_objs := handler_objs w; formatter_objs := formatter_objs w;
            root := root w;
            loggerDict := <[name := {| level := NOTSET; handlers := [] |}]> (loggerDict w);
            calls := calls w |})
    end.

(** *** Levels *)

(** A [log_level] argument: [Union[int, str]]. *)
Inductive LevelArg : Type :=
| LevelInt (n : Z)
| LevelName (s : string).

#[global] Instance LevelArg_eq_dec : EqDecision LevelArg.
Proof. solve_decision. Defined.

(** [logging._nameToLevel], as the package defines it. *)
Definition _nameToLevel : list (string * Z) :=
  [("CRITICAL", CRITICAL); ("FATAL", CRITICAL); ("ERROR", ERROR);
   ("WARN", WARNING); ("WARNING", WARNING); ("INFO", INFO);
   ("DEBUG", DEBUG); ("NOTSET", NOTSET)].

Fixpoint assoc (k : string) (tbl : list (string * Z)) : option Z :=
  match tbl with
  | [] => None
  | (k', v) :: tbl' => if bool_decide (k' = k) then Some v else assoc k tbl'
  end.

(** [logging._checkLevel]: an int passes through, a name is looked up
    and an unknown name raises [ValueError("Unknown level: %r")] (the
    [repr] is rendered with plain quotes). *)
Definition _checkLevel (lv : LevelArg) : M Z :=
  match lv with
  | LevelInt n => mret n
  | LevelName s =>
      match assoc s _nameToLevel with
      | Some n => mret n
      | None => raise (ValueError ("Unknown level: '" +:+ s +:+ "'"))
      end
  end.

(** *** Objects *)

Definition set_handler_objs (hs : list Handler) (w : World) : World :=
  {| handler_objs := hs; formatter_objs := formatter_objs w;
     root := root w; loggerDict := loggerDict w; calls := calls w |}.

Definition set_formatter_objs (fs : list Formatter) (w : World) : World :=
  {| handler_objs := handler_objs w; formatter_objs := fs;
     root := root w; loggerDict := loggerDict w; calls := calls w |}.

Definition set_calls (cs : list LogCall) (w : World) : World :=
  {| handler_objs := handler_objs w; formatter_objs := formatter_objs w;
     root := root w; loggerDict := loggerDict w; calls := cs |}.

(** Allocation of a handler object; the result is its identity. *)
Definition new_handler (h : Handler) : M nat := λ w,
  (Return (length (handler_objs w)), set_handler_objs (handler_objs w ++ [h]) w).

(** [logging.StreamHandler()] *)
Definition new_StreamHandler : M nat :=
  new_handler {| hclass := StreamHandler; baseFilename := None; when := None;
                 formatter := None; hlevel := NOTSET |}.

(** [logging.FileHandler(filename)].  Opening the file is the business
    of the file system; the constructor is taken to succeed. *)
Definition new_FileHandler (filename : string) : M nat :=
  new_handler {| hclass := FileHandler; baseFilename := Some filename; when := None;
                 formatter := None; hlevel := NOTSET |}.

(** [TimedRotatingFileHandler(filename, when=w)] *)
Definition new_TimedRotatingFileHandler (filename w : string) : M nat :=
  new_handler {| hclass := TimedRotatingFileHandler; baseFilename := Some filename;
                 when := Some w; formatter := None; hlevel := NOTSET |}.

(** [logging.Formatter(fmt, datefmt)]; the result is its identity. *)
Definition new_Formatter (fmt : string) (dfmt : option string) : M nat := λ w,
  (Return (length (formatter_objs w)),
   set_formatter_objs (formatter_objs w ++ [{| _fmt := fmt; datefmt := dfmt |}]) w).

(** [type(h)] *)
Definition type_of (w : World) (h : nat) : option HandlerClass :=
  hclass <$> handler_objs w !! h.

Definition formatter_of (w : World) (h : nat) : option nat :=
  handler_objs w !! h ≫= formatter.

Definition with_formatter (f : nat) (h : Handler) : Handler :=
  {| hclass := hclass h; baseFilename := baseFilename h; when := when h;
     formatter := Some f; hlevel := hlevel h |}.

Definition with_hlevel (n : Z) (h : Handler) : Handler :=
  {| hclass := hclass h; baseFilename := baseFilename h; when := when h;
     formatter := formatter h; hlevel := n |}.

(** [h.setFormatter(f)] *)
Definition Handler_setFormatter (h f : nat) : M () :=
  modify (λ w, set_handler_objs (alter (with_formatter f) h (handler_objs w)) w).

(** [h.setLevel(lv)] *)
Definition Handler_setLevel (h : nat) (lv : LevelArg) : M () :=
  n ← _checkLevel lv;
  modify (λ w, set_handler_objs (alter (with_hlevel n) h (handler_objs w)) w).

(** [l.setLevel(lv)] *)
Definition Logger_setLevel (l : LoggerRef) (lv : LevelArg) : M () :=
  n ← _checkLevel lv;
  modify (update_logger l (λ lg, {| level := n; handlers := handlers lg |})).

Definition append_handler (h : nat) (lg : Logger) : Logger :=
  if bool_decide (h ∈ handlers lg) then lg
  else {| level := level lg; handlers := handlers lg ++ [h] |}.

(** [l.addHandler(h)]: appended unless already in the list. *)
Definition Logger_addHandler (l : LoggerRef) (h : nat) : M () :=
  modify (update_logger l (append_handler h)).

(** [l.handlers = hs] *)
Definition Logger_set_handlers (l : LoggerRef) (hs : list nat) : M () :=
  modify (update_logger l (λ lg, {| level := level lg; handlers := hs |})).

(** [l.exception(msg, extra=e)], [l.error(...)], ...: the call is
    recorded as it reaches the logger.  What the package then does with
    it (threshold, record creation, dispatch to the handlers) is not
    modelled. *)
Definition Logger_log (m : Method) (l : LoggerRef) (msg : string)
    (extra : gmap string Py.Value) : M () :=
  modify (λ w, set_calls (calls w ++ [{| call_logger := l; call_method := m;
                                          call_msg := msg; call_extra := extra |}]) w).

End Logging.

(* ===================================================================== *)
(** ** log_factory.py *)
(* ===================================================================== *)

Module LogFactory.
Import Py Logging.

(** The [custom_handlers] argument:
    [Optional[Union[logging.Handler, List[logging.Handler]]]]. *)
Inductive CustomHandlers : Type :=
| NoCustom
| OneHandler (h : nat)
| HandlerList (hs : list nat).

(** Truthiness of the argument: [None] and [[]] are false. *)
Definition truthy_custom (c : CustomHandlers) : bool :=
  match c with
  | NoCustom => false
  | OneHandler _ => true
  | HandlerList [] => false
  | HandlerList (_ :: _) => true
  end.

Definition _get_handlers (to_console : bool) (log_file : option string)
    (rotate_file_by_day : bool) : M (list nat) :=
  let handlers : list nat := [] in
  handlers ← (if to_console
              then h ← new_StreamHandler; mret (handlers ++ [h])
              else mret handlers);
  handlers ← (if truthy_str log_file
              then if rotate_file_by_day
                   then h ← new_TimedRotatingFileHandler (default "" log_file) "midnight";
                        mret (handlers ++ [h])
                   else h ← new_FileHandler (default "" log_file);
                        mret (handlers ++ [h])
              else mret handlers);
  mret handlers.

Definition _check_unique_handler_types (logger : LoggerRef)
    (unique_handler_types : bool) : M LoggerRef :=
  same ← get (λ w,
    unique_handler_types
    && match parent w logger with
       | Some p => bool_decide (handlers_of w logger = handlers_of w p)
       | None => false
       end);
  (if same : bool then Logger_set_handlers logger [] else mret ());;
  mret logger.

(** The loop of [_attach_handlers] (lines 103-109). *)
Fixpoint attach_loop (logger : LoggerRef) (handler_types : list (option HandlerClass))
    (log_level : LevelArg) (formatter : nat) (unique_handler_types : bool)
    (handlers : list nat) : M () :=
  match handlers with
  | [] => mret ()
  | handler :: rest =>
      ty ← get (λ w, type_of w handler);
      (if unique_handler_types && bool_decide (ty ∈ handler_types)
       then mret ()
       else Handler_setFormatter handler formatter;;
            Handler_setLevel handler log_level;;
            Logger_addHandler logger handler);;
      attach_loop logger handler_types log_level formatter unique_handler_types rest
  end.

Definition _attach_handlers (logger : LoggerRef) (handlers : list nat)
    (log_level : LevelArg) (formatter : nat) (unique_handler_types : bool)
  : M LoggerRef :=
  handler_list ← get (λ w, handlers_of w logger);
  handler_list ← get (λ w,
    match parent w logger with
    | Some p => handler_list ++ handlers_of w p
    | None => handler_list
    end);
  handler_types ← get (λ w, type_of w <$> handler_list);
  attach_loop logger handler_types log_level formatter unique_handler_types handlers;;
  mret logger.

(** The error of line 157. *)
Definition InvalidConfiguration : Exn :=
  ValueError "log_name must be a non-empty string.".

(** Lines 159-164. *)
Definition make_formatter (rotate_file_by_day : bool) (log_file : option string)
    (log_format : string) (log_time_format : option string) : M nat :=
  if rotate_file_by_day && truthy_str log_file
  then new_Formatter log_format (Some "%H:%M:%S")
  else if truthy_str log_time_format
       then new_Formatter log_format log_time_format
       else new_Formatter log_format None.

(** Lines 172-176. *)
Definition extend_custom (handlers : list nat) (custom_handlers : CustomHandlers)
  : list nat :=
  if truthy_custom custom_handlers
  then match custom_handlers with
       | HandlerList l => handlers ++ l
       | OneHandler h => handlers ++ [h]
       | NoCustom => handlers
       end
  else handlers.

(** Line 180. *)
Definition normalize_level (log_level : LevelArg) : LevelArg :=
  match log_level with
  | LevelName s => LevelName (upper (strip s))
  | LevelInt n => LevelInt n
  end.

Definition log_factory (log_name : Value) (log_file : option string)
    (rotate_file_by_day : bool) (log_level : LevelArg) (to_console : bool)
    (custom_handlers : CustomHandlers) (log_format : string)
    (log_time_format : option string) (unique_handler_types : bool)
  : M LoggerRef :=
  match as_str log_name with
  | Some name =>
      if bool_decide (strip name = "")
      then raise InvalidConfiguration
      else
        formatter ← make_formatter rotate_file_by_day log_file log_format log_time_format;
        handlers ← _get_handlers to_console log_file rotate_file_by_day;
        let handlers := extend_custom handlers custom_handlers in
        logger ← getLogger name;
        let log_level := normalize_level log_level in
        Logger_setLevel logger log_level;;
        logger ← _attach_handlers logger handlers log_level formatter unique_handler_types;
        _check_unique_handler_types logger unique_handler_types
  | None => raise InvalidConfiguration
  end.

(** The sinks section 4.1 of the specification asks of the handler
    builder, in order: the console sink if requested, then the file sink
    (rotating or plain) if a path is given. *)
Definition builtin_classes (to_console : bool) (log_file : option string)
    (rotate_file_by_day : bool) : list HandlerClass :=
  (if to_console then [StreamHandler] else [])
  ++ (if truthy_str log_file
      then [if rotate_file_by_day then TimedRotatingFileHandler else FileHandler]
      else []).

(** The defaults of the signature. *)
Definition default_log_format : string :=
  "%(asctime)s - %(name)s - %(levelname)s - %(message)s".

Record LogContext : Type := mkLogContext {
  exception : string → M ();
  error : string → M ();
  warning : string → M ();
  info : string → M ();
  debug : string → M ()
}.

Record LogContextGenerators : Type := mkLogContextGenerators {
  logger : LoggerRef
}.

(** [LogContextGenerators.__init__]: the keyword arguments are those
    of [log_factory], forwarded as they are. *)
Definition LogContextGenerators_init (log_name : Value) (log_file : option string)
    (rotate_file_by_day : bool) (log_level : LevelArg) (to_console : bool)
    (custom_handlers : CustomHandlers) (log_format : string)
    (log_time_format : option string) (unique_handler_types : bool)
  : M LogContextGenerators :=
  l ← log_factory log_name log_file rotate_file_by_day log_level to_console
        custom_handlers log_format log_time_format unique_handler_types;
  mret {| logger := l |}.

Definition get_logger_for_context (self : LogContextGenerators)
    (kwargs : gmap string Value) : LogContext :=
  {| exception := λ msg, Logger_log Exception (logger self) msg kwargs;
     error := λ msg, Logger_log Error (logger self) msg kwargs;
     warning := λ msg, Logger_log Warning (logger self) msg kwargs;
     info := λ msg, Logger_log Info (logger self) msg kwargs;
     debug := λ msg, Logger_log Debug (logger self) msg kwargs |}.

(** *** Vocabulary of the properties *)

(** The test of line 104: deduplication is on and the class of [h] is
    among the classes computed before the loop. *)
Definition skipped (unique_handler_types : bool)
    (handler_types : list (option HandlerClass)) (w : World) (h : nat) : bool :=
  unique_handler_types && bool_decide (type_of w h ∈ handler_types).

(** The classes line 101 computes for [l] in [w]. *)
Definition present_types (w : World) (l : LoggerRef) : list (option HandlerClass) :=
  type_of w <$> (handlers_of w l
                 ++ match parent w l with
                    | Some p => handlers_of w p
                    | None => []
                    end).

(** One iteration of the loop that does not skip [h], once the level has
    been resolved to [n]: lines 107-109. *)
Definition attach_one (l : LoggerRef) (f : nat) (n : Z) (h : nat) (w : World) : World :=
  update_logger l (append_handler h)
    (set_handler_objs
       (alter (with_hlevel n) h (alter (with_formatter f) h (handler_objs w))) w).

(** [h] is the identity of a handler object of the store. *)
Definition allocated (w : World) (h : nat) : Prop := h < length (handler_objs w).

(** The handlers a [custom_handlers] argument supplies. *)
Definition customs_of (c : CustomHandlers) : list nat :=
  match c with
  | NoCustom => []
  | OneHandler h => [h]
  | HandlerList hs => hs
  end.

(** The level [logging] resolves a [log_level] argument to after line 180,
    if any. *)
Definition level_value (log_level : LevelArg) : option Z :=
  match log_level with
  | LevelInt n => Some n
  | LevelName s => assoc (upper (strip s)) _nameToLevel
  end.

(** The logger [getLogger] answers with. *)
Definition logger_for (name : string) : LoggerRef :=
  if bool_decide (name = "" ∨ name = "root") then Root else Named name.

(** The time format section 4.2 of the specification selects. *)
Definition selected_datefmt (rotate_file_by_day : bool) (log_file : option string)
    (log_time_format : option string) : option string :=
  match log_file, rotate_file_by_day with
  | Some (String _ _), true => Some "%H:%M:%S"
  | _, _ =>
      match log_time_format with
      | Some (String c s) => Some (String c s)
      | _ => None
      end
  end.





(** The test of line 67 on the handler lists: [l] has a parent whose
    handler list equals its own. *)
Definition same_as_parent (w : World) (l : LoggerRef) : bool :=
  match parent w l with
  | Some p => bool_decide (handlers_of w l = handlers_of w p)
  | None => false
  end.


(** The characters of a string. *)
Fixpoint chars (s : string) : list ascii :=
  match s with
  | EmptyString => []
  | String c r => c :: chars r
  end.

(** What a computation leaves alone when all it does is set attributes of
    handler objects and change the handler list of [l]. *)
Definition frame (l : LoggerRef) (w w' : World) : Prop :=
  formatter_objs w' = formatter_objs w
  ∧ calls w' = calls w
  ∧ length (handler_objs w') = length (handler_objs w)
  ∧ (∀ h, type_of w' h = type_of w h)
  ∧ (∀ l', l' ≠ l → lookup_logger w' l' = lookup_logger w l')
  ∧ (∀ l', parent w' l' = parent w l')
  ∧ (∀ l', registered w' l' ↔ registered w l')
  ∧ level_of w' l = level_of w l.

End LogFactory.

(* ===================================================================== *)
(** ** Properties *)
(* ===================================================================== *)

Module LogFactorySpec.
Import Py Logging LogFactory.

(** *** Running computations *)

Lemma run_bind {A B} (c : M A) (k : A → M B) w :
  (c ≫= k) w =
  match c w with
  | (Return a, w') => k a w'
  | (Raise e, w') => (Raise e, w')
  end.
Proof. reflexivity. Qed.

Lemma run_ret {A} (a : A) w : (mret a : M A) w = (Return a, w).
Proof. reflexivity. Qed.

Lemma run_checkLevel lv w :
  _checkLevel lv w = ((_checkLevel lv initial).1, w).
Proof.
  destruct lv as [n|s]; unfold _checkLevel; [reflexivity|].
  destruct (assoc s _nameToLevel); reflexivity.
Qed.

(** *** The handler builder *)

Lemma lookup_new_handler (objs : list Handler) o :
  (objs ++ [o]) !! length objs = Some o.
Proof. by rewrite list_lookup_middle. Qed.

(** The handler builder allocates the handlers section 4.1 asks for, in
    that order, and changes nothing else. *)
Lemma get_handlers_spec
    (to_console : bool) (log_file : option string) (rotate : bool) (w : World) :
  ∃ hs objs,
    _get_handlers to_console log_file rotate w
      = (Return hs, set_handler_objs (handler_objs w ++ objs) w)
    ∧ hs = seq (length (handler_objs w)) (length objs)
    ∧ hclass <$> objs = builtin_classes to_console log_file rotate
    ∧ Forall (λ o, formatter o = None ∧ hlevel o = NOTSET) objs
    ∧ Forall (λ o, hclass o ≠ StreamHandler → baseFilename o = log_file) objs
    ∧ Forall (λ o, hclass o = TimedRotatingFileHandler → when o = Some "midnight") objs.
Proof.
  destruct w as [objs0 fs r d cs].
  destruct to_console, log_file as [[|c s]|], rotate;
    unfold _get_handlers, builtin_classes, new_StreamHandler, new_FileHandler,
      new_TimedRotatingFileHandler, new_handler, set_handler_objs;
    unfold mbind, mret, M_bind, M_ret; cbn -[seq];
    (eexists _, _; split;
      [first [rewrite <- ?app_assoc; reflexivity | rewrite app_nil_r; reflexivity]|]);
    cbn; rewrite ?length_app; cbn; rewrite ?Nat.add_1_r;
    repeat split; repeat constructor; done.
Qed.

(** *** The registry *)

Lemma lookup_logger_update_eq l f w :
  lookup_logger (update_logger l f w) l = f <$> lookup_logger w l.
Proof. destruct l; simpl; [done|]. apply lookup_alter_eq. Qed.

Lemma lookup_logger_update_ne l l' f w :
  l' ≠ l → lookup_logger (update_logger l f w) l' = lookup_logger w l'.
Proof.
  intros Hne. destruct l, l'; simpl; try done.
  apply lookup_alter_ne. congruence.
Qed.

Lemma handlers_of_update_ne l l' f w :
  l' ≠ l → handlers_of (update_logger l f w) l' = handlers_of w l'.
Proof. intros. unfold handlers_of. by rewrite lookup_logger_update_ne. Qed.

Lemma handlers_of_update_eq l f w :
  handlers_of (update_logger l f w) l
  = from_option (λ lg, handlers (f lg)) [] (lookup_logger w l).
Proof.
  unfold handlers_of. rewrite lookup_logger_update_eq.
  by destruct (lookup_logger w l).
Qed.

Lemma level_of_update_eq l f w :
  (∀ lg, level (f lg) = level lg) →
  level_of (update_logger l f w) l = level_of w l.
Proof.
  intros Hf. unfold level_of. rewrite lookup_logger_update_eq.
  destruct (lookup_logger w l); simpl; auto.
Qed.

Lemma registered_update l l' f w :
  registered (update_logger l f w) l' ↔ registered w l'.
Proof.
  destruct l, l'; simpl; try done.
  rewrite lookup_alter. case_decide; [subst|done].
  by rewrite fmap_is_Some.
Qed.

Lemma substring_length_le (s : string) (i : nat) :
  String.length (String.substring 0 i s) ≤ i.
Proof.
  revert s. induction i as [|i IH]; intros [|c s]; simpl; try lia.
  specialize (IH s). lia.
Qed.

Lemma substring_proper (s : string) (i : nat) :
  i < String.length s → String.substring 0 i s ≠ s.
Proof.
  intros Hi Heq. pose proof (substring_length_le s i) as Hle.
  rewrite Heq in Hle. lia.
Qed.

(** The parent found by the walk is the root or a registered logger
    under a proper prefix of the name. *)
Lemma nearest_ancestor_cases d name stop :
  nearest_ancestor d name stop = Root
  ∨ ∃ i, i < stop
       ∧ nearest_ancestor d name stop = Named (String.substring 0 i name)
       ∧ is_Some (d !! String.substring 0 i name).
Proof.
  induction stop as [stop IH] using lt_wf_ind.
  destruct stop as [|i]; [by left|]. simpl.
  case_bool_decide.
  - destruct i as [|k]; [by left|].
    case_bool_decide.
    + right. exists (S k). split; [lia|done].
    + destruct (IH k) as [->|(j & ? & -> & ?)]; [lia|by left|].
      right. exists j. split; [lia|done].
  - destruct (IH i) as [->|(j & ? & -> & ?)]; [lia|by left|].
    right. exists j. split; [lia|done].
Qed.

(** The walk only asks which names are registered, and never asks for
    the name itself. *)
Lemma nearest_ancestor_ext d d' name stop :
  (∀ k, k ≠ name → is_Some (d !! k) ↔ is_Some (d' !! k)) →
  stop ≤ String.length name →
  nearest_ancestor d name stop = nearest_ancestor d' name stop.
Proof.
  intros Hdom. induction stop as [stop IH] using lt_wf_ind. intros Hstop.
  destruct stop as [|i]; [done|]. simpl.
  case_bool_decide.
  - destruct i as [|k]; [done|].
    assert (String.substring 0 (S k) name ≠ name) as Hne
      by (apply substring_proper; lia).
    specialize (Hdom _ Hne).
    repeat case_bool_decide; try tauto; try done.
    apply IH; lia.
  - apply IH; lia.
Qed.

Lemma parent_ne w l p : parent w l = Some p → p ≠ l.
Proof.
  destruct l as [|n]; simpl; [done|]. intros [= <-].
  destruct (nearest_ancestor_cases (loggerDict w) n (String.length n))
    as [->|(i & Hi & -> & _)]; [done|].
  intros [= Heq]. by apply (substring_proper n i).
Qed.

Lemma parent_registered w l p : parent w l = Some p → registered w p.
Proof.
  destruct l as [|n]; simpl; [done|]. intros [= <-].
  destruct (nearest_ancestor_cases (loggerDict w) n (String.length n))
    as [->|(i & Hi & -> & ?)]; done.
Qed.

Lemma parent_update l l' f w : parent (update_logger l f w) l' = parent w l'.
Proof.
  destruct l' as [|n]; [by destruct l|]. simpl. f_equal.
  destruct l as [|m]; [done|]. simpl.
  apply nearest_ancestor_ext; [|done].
  intros k _. rewrite lookup_alter. case_decide; [subst|done].
  by rewrite fmap_is_Some.
Qed.

(** *** Frames *)

Lemma frame_refl l w : frame l w w.
Proof. unfold frame. by split_and!. Qed.

Lemma frame_trans l w1 w2 w3 : frame l w1 w2 → frame l w2 w3 → frame l w1 w3.
Proof.
  intros (F1 & F2 & F3 & F4 & F5 & F6 & F7 & F8) (G1 & G2 & G3 & G4 & G5 & G6 & G7 & G8).
  unfold frame. split_and!.
  - congruence.
  - congruence.
  - congruence.
  - intros h. by rewrite G4.
  - intros l' Hne. by rewrite G5, F5.
  - intros l'. by rewrite G6.
  - intros l'. by rewrite G7.
  - congruence.
Qed.

Lemma frame_alter_handler l g h w :
  (∀ o, hclass (g o) = hclass o) →
  frame l w (set_handler_objs (alter g h (handler_objs w)) w).
Proof.
  intros Hg. unfold frame. split_and!; try done.
  - simpl. apply length_alter.
  - intros h'. unfold type_of. simpl. rewrite list_lookup_alter.
    case_decide; [subst|done].
    destruct (handler_objs w !! h'); simpl; [|done]. by rewrite Hg.
Qed.

Lemma frame_update_logger l g w :
  (∀ lg, level (g lg) = level lg) → frame l w (update_logger l g w).
Proof.
  intros Hg. unfold frame. split_and!; try by destruct l.
  - intros l' Hne. by apply lookup_logger_update_ne.
  - intros l'. apply parent_update.
  - intros l'. apply registered_update.
  - by apply level_of_update_eq.
Qed.

Lemma level_append_handler h lg : level (append_handler h lg) = level lg.
Proof. unfold append_handler. by case_bool_decide. Qed.

(** *** The collapse step *)

(** The collapse step, case by case. *)
Lemma check_unique_spec
    (logger : LoggerRef) (unique : bool) (w : World) :
  ∃ w',
    _check_unique_handler_types logger unique w = (Return logger, w')
    ∧ ((unique = true
        ∧ ∃ p, parent w logger = Some p ∧ handlers_of w logger = handlers_of w p)
       → handlers_of w' logger = []
         ∧ w' = update_logger logger (λ lg, {| level := level lg; handlers := [] |}) w)
    ∧ (¬ (unique = true
          ∧ ∃ p, parent w logger = Some p ∧ handlers_of w logger = handlers_of w p)
       → w' = w)
    ∧ (parent w logger = None → w' = w)
    ∧ frame logger w w'.
Proof.
  unfold _check_unique_handler_types, Logger_set_handlers, get, modify.
  unfold mbind, mret, M_bind, M_ret.
  assert (∀ g, handlers_of (update_logger logger
                 (λ lg, {| level := level lg; handlers := [] |}) w) logger = [] ∨ g)
    as Hnil.
  { intros g. left. rewrite handlers_of_update_eq.
    by destruct (lookup_logger w logger). }
  destruct unique; simpl;
    [destruct (parent w logger) as [p|] eqn:Hp; [case_bool_decide as Heq|]|];
    (eexists; split; [reflexivity|]); split_and!;
    try (apply frame_refl); try (by apply frame_update_logger);
    naive_solver.
Qed.

(** *** The attachment loop *)

Lemma attach_loop_cons l tys lvl f u h rest w :
  attach_loop l tys lvl f u (h :: rest) w =
  if skipped u tys w h then attach_loop l tys lvl f u rest w
  else match (_checkLevel lvl initial).1 with
       | Return n => attach_loop l tys lvl f u rest (attach_one l f n h w)
       | Raise e =>
           (Raise e, set_handler_objs (alter (with_formatter f) h (handler_objs w)) w)
       end.
Proof.
  unfold skipped. simpl attach_loop.
  unfold get, mbind, mret, M_bind, M_ret.
  destruct (u && bool_decide (type_of w h ∈ tys)); [done|].
  unfold Handler_setFormatter, Handler_setLevel, Logger_addHandler, modify.
  unfold mbind, M_bind. rewrite run_checkLevel.
  by destruct (_checkLevel lvl initial).1.
Qed.

Lemma skipped_frame l u tys w w' h :
  frame l w w' → skipped u tys w' h = skipped u tys w h.
Proof. intros (_ & _ & _ & Hty & _). unfold skipped. by rewrite Hty. Qed.

Lemma frame_configure l f n h w :
  frame l w
    (set_handler_objs
       (alter (with_hlevel n) h (alter (with_formatter f) h (handler_objs w))) w).
Proof.
  exact (frame_trans l w _ _
           (frame_alter_handler l (with_formatter f) h w (λ _, eq_refl))
           (frame_alter_handler l (with_hlevel n) h
              (set_handler_objs (alter (with_formatter f) h (handler_objs w)) w)
              (λ _, eq_refl))).
Qed.

Lemma handlers_of_append l h w :
  handlers_of (update_logger l (append_handler h) w) l
  = if bool_decide (registered w l ∧ (h ∉ handlers_of w l))
    then handlers_of w l ++ [h] else handlers_of w l.
Proof.
  rewrite handlers_of_update_eq. unfold handlers_of, append_handler.
  destruct l as [|n]; simpl.
  - repeat case_bool_decide; naive_solver.
  - destruct (loggerDict w !! n) as [lg|] eqn:Hlg; simpl.
    + repeat case_bool_decide; naive_solver.
    + done.
Qed.

Lemma frame_attach_one l f n h w : frame l w (attach_one l f n h w).
Proof.
  eapply frame_trans; [apply (frame_configure l f n h)|].
  exact (frame_update_logger l _ _ (level_append_handler h)).
Qed.

Lemma handlers_of_attach_one l f n h w :
  handlers_of (attach_one l f n h w) l
  = if bool_decide (registered w l ∧ (h ∉ handlers_of w l))
    then handlers_of w l ++ [h] else handlers_of w l.
Proof. unfold attach_one. by rewrite handlers_of_append. Qed.

Lemma lookup_attach_one l f n h w h' :
  handler_objs (attach_one l f n h w) !! h'
  = if decide (h = h')
    then (λ o, with_hlevel n (with_formatter f o)) <$> handler_objs w !! h'
    else handler_objs w !! h'.
Proof.
  assert (handler_objs (attach_one l f n h w)
          = alter (with_hlevel n) h (alter (with_formatter f) h (handler_objs w)))
    as -> by by destruct l.
  rewrite !list_lookup_alter. repeat case_decide; subst; try done.
  by destruct (handler_objs w !! h').
Qed.

(** Whatever the outcome, the loop extends the handler list of the logger
    at its end, by handlers of the sequence that were neither skipped nor
    already there, and leaves every other logger alone. *)
Lemma attach_loop_extends l tys lvl f u hs w r w' :
  attach_loop l tys lvl f u hs w = (r, w') →
  frame l w w'
  ∧ ∃ added,
      handlers_of w' l = handlers_of w l ++ added
      ∧ (∀ h, h ∈ added →
              h ∈ hs ∧ (h ∉ handlers_of w l) ∧ skipped u tys w h = false).
Proof.
  revert w. induction hs as [|h hs IH]; intros w Hrun.
  - injection Hrun as <- <-. split; [apply frame_refl|].
    exists []. rewrite app_nil_r. split; [done|]. by intros h ?%elem_of_nil.
  - rewrite attach_loop_cons in Hrun.
    destruct (skipped u tys w h) eqn:Hskip.
    { destruct (IH _ Hrun) as (Hfr & added & Heq & Hadded).
      split; [done|]. exists added. split; [done|].
      intros h' Hh'. destruct (Hadded h' Hh') as (? & ? & ?).
      split_and!; [by apply elem_of_cons; right|done|done]. }
    destruct (_checkLevel lvl initial).1 as [n|e].
    + set (w3 := attach_one l f n h w) in Hrun.
      assert (frame l w w3) as F13 by apply frame_attach_one.
      destruct (IH _ Hrun) as (Hfr & added & Heq & Hadded).
      split; [by eapply frame_trans|].
      pose proof (handlers_of_attach_one l f n h w) as H3. fold w3 in H3.
      case_bool_decide as Hnew.
      * exists (h :: added). rewrite Heq, H3, <- app_assoc. split; [done|].
        intros h' [->|Hh']%elem_of_cons.
        -- split_and!; [by apply elem_of_cons; left|by destruct Hnew|done].
        -- destruct (Hadded h' Hh') as (? & Hnot & Hsk).
           rewrite H3 in Hnot. rewrite (skipped_frame l u tys w w3) in Hsk by done.
           split_and!; [by apply elem_of_cons; right| |done].
           intros ?. apply Hnot, elem_of_app. by left.
      * exists added. rewrite Heq, H3. split; [done|].
        intros h' Hh'. destruct (Hadded h' Hh') as (? & Hnot & Hsk).
        rewrite H3 in Hnot. rewrite (skipped_frame l u tys w w3) in Hsk by done.
        split_and!; [by apply elem_of_cons; right|done|done].
    + injection Hrun as <- <-.
      split; [by apply frame_alter_handler|].
      exists []. rewrite app_nil_r. split; [done|]. by intros h' ?%elem_of_nil.
Qed.

Lemma attach_handlers_run l hs lvl f u w :
  _attach_handlers l hs lvl f u w
  = match attach_loop l (present_types w l) lvl f u hs w with
    | (Return _, w') => (Return l, w')
    | (Raise e, w') => (Raise e, w')
    end.
Proof.
  unfold _attach_handlers, present_types, get, mbind, mret, M_bind, M_ret.
  destruct (parent w l); [done|]. by rewrite app_nil_r.
Qed.

(** C7.  Whatever its outcome, the attach operation leaves the handler
    list of the target logger equal to the old list followed by handlers
    it attached (each taken from the given sequence and not in the old
    list): reading the lists of the logger and of its parent adds nothing
    to either.  The handler list of the parent, and of every other logger,
    is unchanged. *)
Theorem C7_attach_reads_copies
    (logger : LoggerRef) (hs : list nat) (log_level : LevelArg)
    (formatter : nat) (unique : bool) (w : World) :
  let w' := (_attach_handlers logger hs log_level formatter unique w).2 in
  (∃ added,
     handlers_of w' logger = handlers_of w logger ++ added
     ∧ (∀ h, h ∈ added → h ∈ hs ∧ (h ∉ handlers_of w logger)))
  ∧ (∀ p, parent w logger = Some p → handlers_of w' p = handlers_of w p)
  ∧ (∀ l', l' ≠ logger → handlers_of w' l' = handlers_of w l')
  ∧ (∀ l', parent w' l' = parent w l').
Proof.
  intros w'. subst w'. rewrite attach_handlers_run.
  destruct (attach_loop logger (present_types w logger) log_level formatter unique hs w)
    as [r w'] eqn:Hrun.
  destruct (attach_loop_extends _ _ _ _ _ _ _ _ _ Hrun)
    as ((_ & _ & _ & _ & Hother & Hpar & _) & added & Heq & Hadded).
  assert ((match r with
           | Return _ => (Return logger, w')
           | Raise e => (Raise e, w')
           end).2 = w') as -> by by destruct r.
  split_and!.
  - exists added. split; [done|]. intros h Hh. by destruct (Hadded h Hh) as (? & ? & _).
  - intros p Hp. unfold handlers_of. rewrite Hother; [done|]. by eapply parent_ne.
  - intros l' Hne. unfold handlers_of. by rewrite Hother.
  - done.
Qed.

Lemma attach_loop_formatter_stable l tys lvl f u hs w r w' h :
  attach_loop l tys lvl f u hs w = (r, w') →
  formatter_of w h = Some f → formatter_of w' h = Some f.
Proof.
  revert w. induction hs as [|h0 hs IH]; intros w Hrun Hf.
  - by injection Hrun as <- <-.
  - rewrite attach_loop_cons in Hrun.
    destruct (skipped u tys w h0); [by eauto|].
    unfold formatter_of in Hf.
    destruct (handler_objs w !! h) as [o|] eqn:Ho; [simpl in Hf|done].
    destruct (_checkLevel lvl initial).1 as [n|e].
    + apply (IH _ Hrun). unfold formatter_of. rewrite lookup_attach_one, Ho.
      by case_decide.
    + injection Hrun as <- <-. unfold formatter_of. simpl.
      rewrite list_lookup_alter. case_decide; subst; by rewrite Ho.
Qed.

(** Once the level resolves, the loop runs to its end, and every handler
    of the sequence that is not skipped ends up attached and carrying the
    formatter. *)
Lemma attach_loop_ok l tys lvl f u hs w n :
  (_checkLevel lvl initial).1 = Return n →
  ∃ w',
    attach_loop l tys lvl f u hs w = (Return (), w')
    ∧ ∀ h, h ∈ hs → skipped u tys w h = false →
           (registered w l → h ∈ handlers_of w' l)
           ∧ (allocated w h → formatter_of w' h = Some f).
Proof.
  intros Hn. revert w. induction hs as [|h0 hs IH]; intros w.
  - eexists. split; [done|]. by intros h ?%elem_of_nil.
  - rewrite attach_loop_cons, Hn.
    destruct (skipped u tys w h0) eqn:Hsk.
    + destruct (IH w) as (w' & Hrun & Hall). exists w'. split; [done|].
      intros h [->|Hh]%elem_of_cons Hns; [congruence|]. by apply Hall.
    + set (w3 := attach_one l f n h0 w).
      pose proof (frame_attach_one l f n h0 w) as F. fold w3 in F.
      destruct (IH w3) as (w' & Hrun & Hall). exists w'. split; [done|].
      intros h [->|Hh]%elem_of_cons Hns.
      * split.
        -- intros Hreg.
           destruct (attach_loop_extends _ _ _ _ _ _ _ _ _ Hrun)
             as (_ & added & Heq & _).
           rewrite Heq. apply elem_of_app. left. unfold w3.
           rewrite handlers_of_attach_one. case_bool_decide as Hc.
           ++ apply elem_of_app. right. by apply list_elem_of_singleton.
           ++ destruct (decide (h0 ∈ handlers_of w l)); [done|]. by destruct Hc.
        -- intros Hal. eapply attach_loop_formatter_stable; [exact Hrun|].
           unfold formatter_of, w3. rewrite lookup_attach_one, decide_True by done.
           destruct (handler_objs w !! h0) eqn:E; [done|].
           apply lookup_ge_None in E. unfold allocated in Hal. lia.
      * destruct F as (_ & _ & Hlen & _ & _ & _ & Hreg & _).
        destruct (Hall h Hh) as [H1 H2].
        { by rewrite (skipped_frame l u tys w w3) by apply frame_attach_one. }
        split.
        -- intros ?. apply H1. by apply Hreg.
        -- intros ?. apply H2. unfold allocated in *. by rewrite Hlen.
Qed.


(** *** The registry calls of [log_factory] *)



Lemma getLogger_spec name w :
  ∃ w',
    getLogger name w = (Return (logger_for name), w')
    ∧ registered w' (logger_for name)
    ∧ handler_objs w' = handler_objs w
    ∧ formatter_objs w' = formatter_objs w
    ∧ calls w' = calls w
    ∧ (∀ l', handlers_of w' l' = handlers_of w l')
    ∧ parent w' (logger_for name) = parent w (logger_for name)
    ∧ (registered w (logger_for name) → w' = w).
Proof.
  unfold getLogger, logger_for. case_bool_decide as Hroot.
  { exists w. by split_and!. }
  destruct (loggerDict w !! name) as [lg|] eqn:Hlg.
  { exists w. split_and!; try done. simpl. by rewrite Hlg. }
  eexists. split; [reflexivity|]. split_and!; try done.
  - simpl. by rewrite lookup_insert_eq.
  - intros [|m]; [done|]. unfold handlers_of. simpl.
    rewrite lookup_insert. case_decide; [subst|done]. by rewrite Hlg.
  - simpl. f_equal. apply nearest_ancestor_ext; [|done].
    intros k Hk. by rewrite lookup_insert_ne.
  - simpl. rewrite Hlg. by intros [? ?].
Qed.

Lemma setLevel_run l lvl w :
  Logger_setLevel l lvl w
  = match (_checkLevel lvl initial).1 with
    | Return n =>
        (Return (), update_logger l (λ lg, {| level := n; handlers := handlers lg |}) w)
    | Raise e => (Raise e, w)
    end.
Proof.
  unfold Logger_setLevel, mbind, M_bind. rewrite run_checkLevel.
  by destruct (_checkLevel lvl initial).1.
Qed.

Lemma checkLevel_normalize lvl :
  (_checkLevel (normalize_level lvl) initial).1
  = match level_value lvl with
    | Some n => Return n
    | None =>
        Raise (ValueError
                 ("Unknown level: '"
                  +:+ match lvl with
                      | LevelName s => upper (strip s)
                      | LevelInt _ => ""
                      end +:+ "'"))
    end.
Proof.
  destruct lvl as [n|s]; [done|]. unfold normalize_level, level_value, _checkLevel.
  by destruct (assoc (upper (strip s)) _nameToLevel).
Qed.

Lemma make_formatter_run rot lf fmt ltf w :
  make_formatter rot lf fmt ltf w
  = (Return (length (formatter_objs w)),
     set_formatter_objs
       (formatter_objs w ++ [{| _fmt := fmt; datefmt := selected_datefmt rot lf ltf |}]) w).
Proof. by destruct rot, lf as [[|??]|], ltf as [[|??]|]. Qed.

(** *** The stages of a successful call *)

Lemma handlers_of_set_level l n w l' :
  handlers_of (update_logger l (λ lg, {| level := n; handlers := handlers lg |}) w) l'
  = handlers_of w l'.
Proof.
  destruct (decide (l' = l)) as [->|Hne].
  - rewrite handlers_of_update_eq. unfold handlers_of.
    by destruct (lookup_logger w l).
  - by apply handlers_of_update_ne.
Qed.

Lemma level_of_set_level l n w :
  registered w l →
  level_of (update_logger l (λ lg, {| level := n; handlers := handlers lg |}) w) l = n.
Proof.
  intros Hreg. unfold level_of. rewrite lookup_logger_update_eq.
  destruct l as [|m]; simpl in *; [done|]. by destruct Hreg as [lg ->].
Qed.

Lemma log_factory_invalid log_name lf rot lvl tc custom fmt ltf u w :
  (as_str log_name = None ∨ ∃ s, log_name = VStr s ∧ strip s = "") →
  log_factory log_name lf rot lvl tc custom fmt ltf u w
  = (Raise InvalidConfiguration, w).
Proof.
  unfold log_factory. intros [->|(s & -> & Hs)]; [done|].
  simpl. by rewrite bool_decide_true.
Qed.

(** A call with a usable name builds the formatter and the handlers, looks
    the logger up, sets its level, and then runs the loop and the collapse
    step; a level that does not resolve raises at [setLevel], with the
    formatter, the handlers and the logger already created. *)
Lemma log_factory_run name lf rot lvl tc custom fmt ltf u w :
  strip name ≠ "" →
  ∃ objs w3,
    let l := logger_for name in
    let fid := length (formatter_objs w) in
    let hs := extend_custom (seq (length (handler_objs w)) (length objs)) custom in
    hclass <$> objs = builtin_classes tc lf rot
    ∧ Forall (λ o, formatter o = None ∧ hlevel o = NOTSET) objs
    ∧ handler_objs w3 = handler_objs w ++ objs
    ∧ formatter_objs w3
      = formatter_objs w ++ [{| _fmt := fmt; datefmt := selected_datefmt rot lf ltf |}]
    ∧ calls w3 = calls w
    ∧ registered w3 l
    ∧ (∀ l', handlers_of w3 l' = handlers_of w l')
    ∧ parent w3 l = parent w l
    ∧ (registered w l → lookup_logger w3 l = lookup_logger w l)
    ∧ log_factory (VStr name) lf rot lvl tc custom fmt ltf u w
      = match level_value lvl with
        | Some n =>
            let w4 := update_logger l
                        (λ lg, {| level := n; handlers := handlers lg |}) w3 in
            match attach_loop l (present_types w4 l) (normalize_level lvl) fid u hs w4
            with
            | (Return _, w5) => _check_unique_handler_types l u w5
            | (Raise e, w5) => (Raise e, w5)
            end
        | None =>
            (Raise (ValueError
                      ("Unknown level: '"
                       +:+ match lvl with
                           | LevelName s => upper (strip s)
                           | LevelInt _ => ""
                           end +:+ "'")), w3)
        end.
Proof.
  intros Hname.
  set (w1 := set_formatter_objs
               (formatter_objs w
                ++ [{| _fmt := fmt; datefmt := selected_datefmt rot lf ltf |}]) w).
  destruct (get_handlers_spec tc lf rot w1) as (hs0 & objs & Hrun & -> & Hcls & Hnone & _).
  set (w2 := set_handler_objs (handler_objs w1 ++ objs) w1) in Hrun.
  destruct (getLogger_spec name w2)
    as (w3 & Hget & Hreg & Hobjs & Hfs & Hcalls & Hhs & Hpar & Hsame).
  exists objs, w3. cbv zeta. split_and!; try done.
  - intros Hr. rewrite Hsame; by destruct (logger_for name).
  - unfold log_factory. change (as_str (VStr name)) with (Some name). cbv beta iota.
    rewrite bool_decide_false by done.
    rewrite run_bind, make_formatter_run. fold w1. cbv beta iota.
    rewrite run_bind, Hrun. cbv beta iota.
    rewrite run_bind, Hget. cbv beta iota.
    rewrite run_bind, setLevel_run, checkLevel_normalize.
    destruct (level_value lvl) as [n|]; [|done].
    rewrite run_bind, attach_handlers_run.
    by destruct (attach_loop _ _ _ _ _ _ _) as [[[]|e] w5].
Qed.

Lemma extend_custom_app hs custom :
  extend_custom hs custom = hs ++ customs_of custom.
Proof.
  destruct custom as [|h|[|h l]]; unfold extend_custom; simpl;
    by rewrite ?app_nil_r.
Qed.

Lemma attach_loop_app l tys lvl f u hs1 hs2 w :
  attach_loop l tys lvl f u (hs1 ++ hs2) w
  = match attach_loop l tys lvl f u hs1 w with
    | (Return _, w') => attach_loop l tys lvl f u hs2 w'
    | (Raise e, w') => (Raise e, w')
    end.
Proof.
  revert w. induction hs1 as [|h hs1 IH]; intros w; [done|].
  rewrite <- app_comm_cons, !attach_loop_cons.
  destruct (skipped u tys w h); [apply IH|].
  destruct (_checkLevel lvl initial).1; [apply IH|done].
Qed.





(** The successful call, stage by stage: [w4] is the store when the loop
    starts, [w5] when it ends, [w6] after the collapse step. *)
Lemma log_factory_ok name lf rot lvl tc custom fmt ltf u w n :
  strip name ≠ "" →
  level_value lvl = Some n →
  ∃ objs w4 w5 w6,
    let l := logger_for name in
    let fid := length (formatter_objs w) in
    let hs := seq (length (handler_objs w)) (length objs) ++ customs_of custom in
    hclass <$> objs = builtin_classes tc lf rot
    ∧ Forall (λ o, formatter o = None ∧ hlevel o = NOTSET) objs
    ∧ handler_objs w4 = handler_objs w ++ objs
    ∧ formatter_objs w4
      = formatter_objs w ++ [{| _fmt := fmt; datefmt := selected_datefmt rot lf ltf |}]
    ∧ registered w4 l
    ∧ level_of w4 l = n
    ∧ (∀ l', handlers_of w4 l' = handlers_of w l')
    ∧ parent w4 l = parent w l
    ∧ attach_loop l (present_types w4 l) (normalize_level lvl) fid u hs w4
      = (Return (), w5)
    ∧ _check_unique_handler_types l u w5 = (Return l, w6)
    ∧ log_factory (VStr name) lf rot lvl tc custom fmt ltf u w = (Return l, w6).
Proof.
  intros Hname Hlvl.
  destruct (log_factory_run name lf rot lvl tc custom fmt ltf u w Hname)
    as (objs & w3 & Hcls & Hnone & Hobjs & Hfs & Hcalls & Hreg & Hhs & Hpar & _ & Hrun).
  cbv zeta in *. rewrite Hlvl, extend_custom_app in Hrun.
  set (l := logger_for name) in *.
  set (w4 := update_logger l (λ lg, {| level := n; handlers := handlers lg |}) w3) in *.
  destruct (attach_loop_ok l (present_types w4 l) (normalize_level lvl)
              (length (formatter_objs w)) u
              (seq (length (handler_objs w)) (length objs) ++ customs_of custom) w4 n)
    as (w5 & Hloop & _).
  { by rewrite checkLevel_normalize, Hlvl. }
  rewrite Hloop in Hrun.
  destruct (check_unique_spec l u w5) as (w6 & Hcheck & _).
  exists objs, w4, w5, w6. split_and!; try done.
  - rewrite <- Hobjs. by destruct l.
  - rewrite <- Hfs. by destruct l.
  - by apply registered_update.
  - by apply level_of_set_level.
  - intros l'. unfold w4. by rewrite handlers_of_set_level.
  - unfold w4. by rewrite parent_update.
  - by rewrite Hrun.
Qed.



(* ===================================================================== *)
(** ** The properties of the specification *)
(* ===================================================================== *)









(** C10.  With [log_file = ""] the call is the call with [log_file = None]:
    both the handler builder and the choice of the formatter test the
    truthiness of [log_file], so no file handler is built and the fixed
    time format is not selected, rotation requested or not. *)
Theorem C10_empty_log_file_is_no_file
    (log_name : Value) (rotate : bool) (log_level : LevelArg)
    (to_console : bool) (custom : CustomHandlers) (log_format : string)
    (log_time_format : option string) (unique : bool) (w : World) :
  log_factory log_name (Some "") rotate log_level to_console custom
    log_format log_time_format unique w
  = log_factory log_name None rotate log_level to_console custom
      log_format log_time_format unique w
  ∧ (∃ hs objs,
       _get_handlers to_console (Some "") rotate w
       = (Return hs, set_handler_objs (handler_objs w ++ objs) w)
       ∧ hclass <$> objs = if to_console then [StreamHandler] else [])
  ∧ make_formatter rotate (Some "") log_format log_time_format w
    = new_Formatter log_format
        (if truthy_str log_time_format then log_time_format else None) w.
Proof.
  split_and!.
  - unfold log_factory, make_formatter, _get_handlers.
    change (truthy_str (Some "")) with false. change (truthy_str None) with false.
    reflexivity.
  - destruct (get_handlers_spec to_console (Some "") rotate w)
      as (hs & objs & Hrun & _ & Hcls & _).
    exists hs, objs. split; [done|]. rewrite Hcls. by destruct to_console.
  - rewrite make_formatter_run. by destruct rotate, log_time_format as [[|??]|].
Qed.

(** C4.  The collapse step always returns the logger it was given, and it
    empties that logger's handler list exactly when deduplication is on,
    the logger has a parent and the two handler lists are equal as
    sequences; otherwise (in particular for the root logger, which has no
    parent) the store is left as it was.  No other logger is touched. *)
Theorem C4_collapse_iff_equal_to_parent
    (logger : LoggerRef) (unique : bool) (w : World) :
  ∃ w',
    _check_unique_handler_types logger unique w = (Return logger, w')
    ∧ ((unique = true
        ∧ ∃ p, parent w logger = Some p ∧ handlers_of w logger = handlers_of w p)
       → handlers_of w' logger = []
         ∧ w' = update_logger logger (λ lg, {| level := level lg; handlers := [] |}) w)
    ∧ (¬ (unique = true
          ∧ ∃ p, parent w logger = Some p ∧ handlers_of w logger = handlers_of w p)
       → w' = w)
    ∧ (logger = Root → w' = w)
    ∧ (∀ l', l' ≠ logger → lookup_logger w' l' = lookup_logger w l').
Proof.
  destruct (check_unique_spec logger unique w)
    as (w' & Hrun & Hclear & Hkeep & Hnone & (_ & _ & _ & _ & Hother & _)).
  exists w'. split_and!; try done.
  intros ->. by apply Hnone.
Qed.


(** The four cases of C6, evaluated. *)
Example get_handlers_console_only :
  hclass <$> handler_objs (_get_handlers true None false initial).2 = [StreamHandler].
Proof. reflexivity. Qed.

Example get_handlers_file_only :
  hclass <$> handler_objs (_get_handlers false (Some "app.log") false initial).2
  = [FileHandler].
Proof. reflexivity. Qed.

Example get_handlers_rotating_file :
  hclass <$> handler_objs (_get_handlers false (Some "app.log") true initial).2
  = [TimedRotatingFileHandler].
Proof. reflexivity. Qed.

Example get_handlers_neither :
  _get_handlers false None true initial = (Return [], initial).
Proof. reflexivity. Qed.

(** *** The context generator *)

Lemma init_owns_logger log_name lf rot lvl tc custom fmt ltf u w self w' :
  LogContextGenerators_init log_name lf rot lvl tc custom fmt ltf u w = (Return self, w') →
  log_factory log_name lf rot lvl tc custom fmt ltf u w = (Return (logger self), w').
Proof.
  unfold LogContextGenerators_init. rewrite run_bind.
  destruct (log_factory _ _ _ _ _ _ _ _ _ w) as [[l|e] w1]; [|done].
  by intros [= <- <-].
Qed.



(** The example of the specification: a context bound to
    [request_id="abc-123"] whose [info] is called with ["processing"]. *)
Example context_request_id :
  let built := LogContextGenerators_init (VStr "svc") None true (LevelInt 10) true
                 NoCustom default_log_format None false initial in
  ∃ self,
    built.1 = Return self
    ∧ calls (info (get_logger_for_context self {["request_id" := VStr "abc-123"]})
               "processing" built.2).2
      = [{| call_logger := Named "svc"; call_method := Info; call_msg := "processing";
            call_extra := {["request_id" := VStr "abc-123"]} |}].
Proof. eexists. split; reflexivity. Qed.

(** *** Deduplication *)

(** C3.  The claim fails on the code: with deduplication on, a first call
    for ["app"] that asks for the console handler and supplies one custom
    [StreamHandler] (object 0, built by the caller) attaches both; the
    classes are compared with those present before the loop only. *)
Theorem C3_same_call_duplicates_are_attached :
  let w0 := (new_StreamHandler initial).2 in
  let run := log_factory (VStr "app") None true (LevelInt 10) true (OneHandler 0)
               default_log_format None true w0 in
  run.1 = Return (Named "app")
  ∧ handlers_of run.2 (Named "app") = [1; 0]
  ∧ type_of run.2 1 = Some StreamHandler
  ∧ type_of run.2 0 = Some StreamHandler.
Proof. cbv zeta. split_and!; reflexivity. Qed.

(** What deduplication does guarantee: no handler is attached whose class
    was on the logger or on its parent when the attach operation began. *)
Lemma dedup_skips_present_types l hs lvl f w h :
  let w' := (_attach_handlers l hs lvl f true w).2 in
  h ∈ handlers_of w' l → type_of w h ∈ present_types w l → h ∈ handlers_of w l.
Proof.
  intros w'. subst w'. rewrite attach_handlers_run.
  destruct (attach_loop l (present_types w l) lvl f true hs w) as [r w'] eqn:Hrun.
  destruct (attach_loop_extends _ _ _ _ _ _ _ _ _ Hrun) as (_ & added & Heq & Hadded).
  assert ((match r with
           | Return _ => (Return l, w')
           | Raise e => (Raise e, w')
           end).2 = w') as -> by by destruct r.
  rewrite Heq. intros [?|Hin]%elem_of_app Hty; [done|].
  destruct (Hadded h Hin) as (_ & _ & Hsk). unfold skipped in Hsk.
  by rewrite bool_decide_true in Hsk.
Qed.

(** *** Custom handlers and the shared formatter *)







End LogFactorySpec.

(* ===================================================================== *)
(** ** Further properties of the module *)
(* ===================================================================== *)

Module LogFactoryMore.
Import Py Logging LogFactory LogFactorySpec.

(** *** The attachment loop, in more detail *)

(** The handlers the loop appends form a subsequence of the given
    sequence without repetition. *)
Lemma attach_loop_sublist l tys lvl f u hs w r w' :
  attach_loop l tys lvl f u hs w = (r, w') →
  ∃ added,
    handlers_of w' l = handlers_of w l ++ added
    ∧ added `sublist_of` hs
    ∧ NoDup added
    ∧ (∀ h, h ∈ added → (h ∉ handlers_of w l) ∧ skipped u tys w h = false).
Proof.
  revert w. induction hs as [|h hs IH]; intros w Hrun.
  - injection Hrun as <- <-. exists []. rewrite app_nil_r.
    split_and!; [done|done|constructor|]. by intros h ?%elem_of_nil.
  - rewrite attach_loop_cons in Hrun.
    destruct (skipped u tys w h) eqn:Hskip.
    { destruct (IH _ Hrun) as (added & Heq & Hsub & Hnd & Hadded).
      exists added. split_and!; [done|by apply sublist_cons|done|done]. }
    destruct (_checkLevel lvl initial).1 as [n|e].
    + set (w3 := attach_one l f n h w) in Hrun.
      pose proof (frame_attach_one l f n h w) as F. fold w3 in F.
      pose proof (handlers_of_attach_one l f n h w) as H3. fold w3 in H3.
      destruct (IH _ Hrun) as (added & Heq & Hsub & Hnd & Hadded).
      case_bool_decide as Hnew.
      * exists (h :: added). rewrite Heq, H3, <- app_assoc.
        split_and!; [done|by apply sublist_skip| |].
        -- apply NoDup_cons. split; [|done]. intros Hin.
           destruct (Hadded h Hin) as [Hnot _]. apply Hnot. rewrite H3.
           apply elem_of_app. right. by apply list_elem_of_singleton.
        -- intros h' [->|Hh']%elem_of_cons; [by destruct Hnew|].
           destruct (Hadded h' Hh') as [Hnot Hsk].
           rewrite (skipped_frame l u tys w w3) in Hsk by done.
           split; [|done]. intros ?. apply Hnot. rewrite H3.
           apply elem_of_app. by left.
      * exists added. rewrite Heq, H3. split_and!; [done|by apply sublist_cons|done|].
        intros h' Hh'. destruct (Hadded h' Hh') as [Hnot Hsk].
        rewrite (skipped_frame l u tys w w3) in Hsk by done.
        rewrite H3 in Hnot. done.
    + injection Hrun as <- <-. exists []. rewrite app_nil_r.
      split_and!; [done|apply sublist_nil_l|constructor|].
      by intros h' ?%elem_of_nil.
Qed.

Lemma snd_attach_handlers l hs lvl f u w :
  (_attach_handlers l hs lvl f u w).2
  = (attach_loop l (present_types w l) lvl f u hs w).2.
Proof.
  rewrite attach_handlers_run.
  by destruct (attach_loop _ _ _ _ _ _ _) as [[[]|e] w'].
Qed.

(** X4.  The attach operation appends handlers in the order they are
    given and each at most once: what it adds to the handler list of the
    logger is a subsequence of the given sequence without repetition, and
    a handler list without repeated handlers stays without. *)
Theorem X4_attach_in_order_without_repetition
    (logger : LoggerRef) (hs : list nat) (log_level : LevelArg)
    (formatter : nat) (unique : bool) (w : World) :
  let w' := (_attach_handlers logger hs log_level formatter unique w).2 in
  ∃ added,
    handlers_of w' logger = handlers_of w logger ++ added
    ∧ added `sublist_of` hs
    ∧ NoDup added
    ∧ (NoDup (handlers_of w logger) → NoDup (handlers_of w' logger)).
Proof.
  intros w'. subst w'. rewrite snd_attach_handlers.
  destruct (attach_loop logger (present_types w logger) log_level formatter unique hs w)
    as [r w'] eqn:Hrun.
  destruct (attach_loop_sublist _ _ _ _ _ _ _ _ _ Hrun)
    as (added & Heq & Hsub & Hnd & Hadded).
  exists added. simpl. split_and!; try done.
  intros Hold. rewrite Heq. apply NoDup_app. split_and!; [done| |done].
  intros h Hh Hin. by destruct (Hadded h Hin).
Qed.

Lemma attach_loop_all_skipped l tys lvl f u hs w :
  (∀ h, h ∈ hs → skipped u tys w h = true) →
  attach_loop l tys lvl f u hs w = (Return (), w).
Proof.
  induction hs as [|h hs IH]; intros Hall; [done|].
  rewrite attach_loop_cons, (Hall h) by (by apply elem_of_cons; left).
  apply IH. intros h' ?. apply Hall. by apply elem_of_cons; right.
Qed.

(** X11.  When the level given to the attach operation does not resolve:
    if every handler of the sequence is skipped the operation returns
    normally and changes nothing; otherwise it raises at the first handler
    that is not skipped, whose formatter has then been replaced while its
    level is kept and it is not attached.  In both cases no handler list
    changes. *)
Theorem X11_attach_with_unknown_level
    (logger : LoggerRef) (hs : list nat) (log_level : LevelArg)
    (formatter : nat) (unique : bool) (w : World) (e : Exn) :
  _checkLevel log_level w = (Raise e, w) →
  let run := _attach_handlers logger hs log_level formatter unique w in
  let skip := skipped unique (present_types w logger) w in
  ((∀ h, h ∈ hs → skip h = true) → run = (Return logger, w))
  ∧ (∀ pre h post,
       hs = pre ++ h :: post → (∀ h', h' ∈ pre → skip h' = true) → skip h = false →
       run = (Raise e,
              set_handler_objs (alter (with_formatter formatter) h (handler_objs w)) w))
  ∧ (∀ l', handlers_of run.2 l' = handlers_of w l').
Proof.
  intros Hlvl run skip. subst run skip.
  assert ((_checkLevel log_level initial).1 = Raise e) as Hraise.
  { rewrite run_checkLevel in Hlvl. by injection Hlvl. }
  assert (∀ pre h post,
            hs = pre ++ h :: post →
            (∀ h', h' ∈ pre → skipped unique (present_types w logger) w h' = true) →
            skipped unique (present_types w logger) w h = false →
            _attach_handlers logger hs log_level formatter unique w
            = (Raise e,
               set_handler_objs (alter (with_formatter formatter) h (handler_objs w)) w))
    as Hfirst.
  { intros pre h post -> Hpre Hh. rewrite attach_handlers_run, attach_loop_app.
    rewrite attach_loop_all_skipped by done.
    by rewrite attach_loop_cons, Hh, Hraise. }
  split_and!; [|done|].
  - intros Hall. rewrite attach_handlers_run.
    by rewrite attach_loop_all_skipped.
  - intros l'.
    destruct (decide (Forall (λ h, skipped unique (present_types w logger) w h = true) hs))
      as [Hall|Hex].
    + rewrite attach_handlers_run, attach_loop_all_skipped; [done|].
      by apply Forall_forall.
    + apply not_Forall_Exists in Hex; [|apply _].
      apply Exists_exists in Hex.
      assert (∃ pre h post,
                hs = pre ++ h :: post
                ∧ (∀ h', h' ∈ pre → skipped unique (present_types w logger) w h' = true)
                ∧ skipped unique (present_types w logger) w h = false)
        as (pre & h & post & Heq & Hpre & Hh).
      { clear Hfirst. induction hs as [|h0 hs IH]; [by destruct Hex as (? & ?%elem_of_nil & _)|].
        destruct (skipped unique (present_types w logger) w h0) eqn:Hs0.
        - destruct IH as (pre & h & post & -> & Hpre & Hh).
          { destruct Hex as (x & [->|Hx]%elem_of_cons & Hnx); [congruence|by exists x]. }
          exists (h0 :: pre), h, post. split_and!; [done| |done].
          intros h' [->|?]%elem_of_cons; [done|by apply Hpre].
        - exists [], h0, hs. split_and!; [done| |done]. by intros h' ?%elem_of_nil. }
      rewrite (Hfirst pre h post Heq Hpre Hh). by destruct l'.
Qed.

Lemma X11_witness :
  let w0 := (new_StreamHandler initial).2 in
  _attach_handlers Root [0] (LevelName "verbose") 7 false w0
  = (Raise (ValueError "Unknown level: 'verbose'"),
     set_handler_objs (alter (with_formatter 7) 0 (handler_objs w0)) w0).
Proof.
  intros w0.
  destruct (X11_attach_with_unknown_level Root [0] (LevelName "verbose") 7 false w0
              (ValueError "Unknown level: 'verbose'")) as (_ & Hfirst & _).
  - reflexivity.
  - apply (Hfirst [] 0 []).
    + reflexivity.
    + intros h' Hh'. apply elem_of_nil in Hh'. destruct Hh'.
    + reflexivity.
Defined.


(** *** The call, with its intermediate stores named *)














(** *** Deduplication, what it does achieve *)


Lemma check_unique_on l w :
  _check_unique_handler_types l true w
  = if same_as_parent w l
    then (Return l, update_logger l (λ lg, {| level := level lg; handlers := [] |}) w)
    else (Return l, w).
Proof.
  unfold _check_unique_handler_types, same_as_parent, Logger_set_handlers, get, modify.
  unfold mbind, mret, M_bind, M_ret. simpl.
  by destruct (match parent w l with Some _ => _ | None => _ end).
Qed.










(** *** The collapse step, composed with itself *)

Lemma update_logger_idem l (f : Logger → Logger) w :
  (∀ lg, f (f lg) = f lg) →
  update_logger l f (update_logger l f w) = update_logger l f w.
Proof.
  intros Hf. destruct l as [|n]; unfold update_logger; simpl; f_equal.
  - apply Hf.
  - apply map_eq. intros k. rewrite !lookup_alter. case_decide; [|done].
    rewrite decide_True by done.
    destruct (loggerDict w !! n); simpl; by rewrite ?Hf.
Qed.

(** X8.  The collapse step is idempotent: applied to its own result it
    changes nothing more. *)
Theorem X8_collapse_idempotent (logger : LoggerRef) (unique : bool) (w : World) :
  let w' := (_check_unique_handler_types logger unique w).2 in
  _check_unique_handler_types logger unique w' = (Return logger, w').
Proof.
  intros w'. subst w'. destruct unique; [|done].
  rewrite (check_unique_on logger w).
  destruct (same_as_parent w logger) eqn:Hsame; unfold snd; rewrite check_unique_on.
  - rewrite update_logger_idem by done.
    by destruct (same_as_parent (update_logger _ _ _) logger).
  - by rewrite Hsame.
Qed.

(** *** Which names are refused *)

Lemma lstrip_blank s : lstrip s = "" ↔ Forall (λ c, is_space c = true) (chars s).
Proof.
  induction s as [|c s IH]; simpl; [by split; [constructor|]|].
  destruct (is_space c) eqn:Hc.
  - rewrite IH. split; [by constructor|]. by intros [_ ?]%Forall_cons.
  - split; [done|]. intros [? _]%Forall_cons. congruence.
Qed.

Lemma lstrip_head s :
  lstrip s = "" ∨ ∃ c r, lstrip s = String c r ∧ is_space c = false.
Proof.
  induction s as [|c s IH]; simpl; [by left|].
  destruct (is_space c) eqn:Hc; [done|]. right. by exists c, s.
Qed.

Lemma rstrip_nonblank c r : is_space c = false → rstrip (String c r) ≠ "".
Proof. intros Hc. simpl. rewrite Hc. by destruct (rstrip r). Qed.

Lemma strip_blank s : strip s = "" ↔ Forall (λ c, is_space c = true) (chars s).
Proof.
  rewrite <- lstrip_blank. unfold strip.
  destruct (lstrip_head s) as [->|(c & r & -> & Hc)]; [done|].
  split; [|done]. intros H. by apply rstrip_nonblank in H.
Qed.

Lemma raises_invalid_iff_blank name lf rot lvl tc custom fmt ltf u w :
  (log_factory (VStr name) lf rot lvl tc custom fmt ltf u w).1 = Raise InvalidConfiguration
  ↔ strip name = "".
Proof.
  split.
  - intros Hrun. destruct (decide (strip name = "")) as [|Hname]; [done|]. exfalso.
    destruct (log_factory_run name lf rot lvl tc custom fmt ltf u w Hname)
      as (? & w3 & _ & _ & _ & _ & _ & _ & _ & _ & _ & Heq).
    destruct (level_value lvl) as [n|] eqn:Hlvl.
    + destruct (log_factory_ok name lf rot lvl tc custom fmt ltf u w n Hname Hlvl)
        as (? & ? & ? & w6 & _ & _ & _ & _ & _ & _ & _ & _ & _ & _ & Hok).
      by rewrite Hok in Hrun.
    + rewrite Heq in Hrun. by simpl in Hrun.
  - intros Hname. rewrite log_factory_invalid; [done|]. right. by exists name.
Qed.

(** X9.  A string name is refused with the error of line 157 exactly when
    every one of its characters is whitespace (the empty name included);
    one character that is not whitespace makes the name usable. *)
Theorem X9_refused_names_are_all_whitespace
    (name : string) (log_file : option string) (rotate : bool) (log_level : LevelArg)
    (to_console : bool) (custom : CustomHandlers) (log_format : string)
    (log_time_format : option string) (unique : bool) (w : World) :
  (log_factory (VStr name) log_file rotate log_level to_console custom
     log_format log_time_format unique w).1 = Raise InvalidConfiguration
  ↔ Forall (λ c, is_space c = true) (chars name).
Proof. by rewrite raises_invalid_iff_blank, strip_blank. Qed.

(** *** Rotation without a file *)

(** X10.  [rotate_file_by_day] only takes effect when a log file is set:
    without one (no path, or the empty path) the call does the same
    whether rotation is requested or not. *)
Theorem X10_rotation_ignored_without_file
    (log_name : Value) (log_file : option string) (log_level : LevelArg)
    (to_console : bool) (custom : CustomHandlers) (log_format : string)
    (log_time_format : option string) (unique : bool) (w : World) :
  truthy_str log_file = false →
  log_factory log_name log_file true log_level to_console custom
    log_format log_time_format unique w
  = log_factory log_name log_file false log_level to_console custom
      log_format log_time_format unique w.
Proof.
  intros Hf. unfold log_factory, make_formatter, _get_handlers. by rewrite Hf.
Qed.

Lemma X10_witness :
  log_factory (VStr "app") (Some "") true (LevelInt 10) true NoCustom
    default_log_format None false initial
  = log_factory (VStr "app") (Some "") false (LevelInt 10) true NoCustom
      default_log_format None false initial.
Proof.
  apply (X10_rotation_ignored_without_file (VStr "app") (Some "") (LevelInt 10) true
           NoCustom default_log_format None false initial).
  reflexivity.
Defined.

End LogFactoryMore.
